(** * dj-service-checker: the [check_service] management command

    A shallow embedding of
    [service_checker/management/commands/check_service.py] and the
    properties of its single operation: one HTTP GET, a measured response
    time, and one categorised line on standard output.

    The command talks to four collaborators that are not part of the
    repository: the wall clock ([time.time]), the HTTP client
    ([requests.get]), the logger and the framework's output stream.  They are
    modelled as an explicit [World] (what the clock and the client answer)
    and an explicit [State] (what has been asked, logged and written). *)

From Stdlib Require Import ZArith List String Ascii Bool Lia.
From Stdlib Require Import Floats.SpecFloat.
From Stdlib Require Import Numbers.DecimalString Numbers.DecimalZ Numbers.DecimalN.
Import ListNotations.

Local Open Scope string_scope.
Local Open Scope Z_scope.

(** ** Python values that reach the command *)

(** Text of a Python [int], as [str] and f-strings produce it. *)
Definition str_int (n : Z) : string := NilZero.string_of_int (Z.to_int n).

(** The objects the option dictionary holds for this command: the [url] is
    converted with [type=str], the [timeout] with [type=int]; an option
    declared without a default and not supplied is [None]. *)
Inductive value :=
| VStr (s : string)
| VInt (n : Z)
| VNone.

(** [str(v)], which is what a replacement field [{v}] of an f-string
    inserts. *)
Definition py_str (v : value) : string :=
  match v with
  | VStr s => s
  | VInt n => str_int n
  | VNone => "None"
  end.

(** ** Floating point numbers

    [time.time()] returns a binary64 float.  The arithmetic on timestamps is
    the IEEE 754 arithmetic of the standard library's executable
    specification, at the binary64 format. *)

Definition float := spec_float.

Definition prec : Z := 53.
Definition emax : Z := 1024.

Definition float_sub (x y : float) : float := SFsub prec emax x y.
Definition float_mul (x y : float) : float := SFmul prec emax x y.

(** The float nearest to the rational [m * 2^e]. *)
Definition float_of (m e : Z) : float := binary_normalize prec emax m e false.

(** The float an [int] operand is converted to before a mixed operation
    (exact for the small literals used here). *)
Definition float_of_int (n : Z) : float := float_of n 0.

Definition is_finite (x : float) : bool :=
  match x with
  | S754_zero _ | S754_finite _ _ _ => true
  | S754_infinity _ | S754_nan => false
  end.

(** *** The format specification [.2f]

    [format(x, '.2f')] prints the decimal number with two fractional digits
    that is nearest to the exact value of [x], ties going to the even last
    digit, and keeps the sign of [x] (also on zeros).  Infinities and NaN
    print as words. *)

(** [m * 2^e * 100] rounded to the nearest integer, ties to even. *)
Definition hundredths (m : positive) (e : Z) : Z :=
  let n := Z.pos m * 100 in
  if 0 <=? e then n * 2 ^ e
  else
    let d := 2 ^ (- e) in
    let q := n / d in
    let r := n mod d in
    match (2 * r) ?= d with
    | Lt => q
    | Eq => if Z.even q then q else q + 1
    | Gt => q + 1
    end.

Definition digit (n : Z) : ascii :=
  ascii_of_N (48 + Z.to_N (n mod 10)).

Definition is_digit (c : ascii) : bool :=
  ((48 <=? N_of_ascii c) && (N_of_ascii c <=? 57))%N.

(** Decimal text of a natural number, without sign. *)
Definition digits (n : Z) : string :=
  NilZero.string_of_uint (N.to_uint (Z.to_N n)).

(** [h] hundredths printed as [I.FF]. *)
Definition fixed2 (h : Z) : string :=
  digits (h / 100) ++ "." ++ String (digit (h / 10)) (String (digit h) "").

Definition sign_text (s : bool) : string := if s then "-" else "".

Definition format_2f (x : float) : string :=
  match x with
  | S754_nan => "nan"
  | S754_infinity s => sign_text s ++ "inf"
  | S754_zero s => sign_text s ++ fixed2 0
  | S754_finite s m e => sign_text s ++ fixed2 (hundredths m e)
  end.

(** ** The collaborators *)

(** Exceptions: the [except] clause of the command tells
    [requests.RequestException] (and its subclasses: connection errors,
    timeouts, TLS errors, invalid URLs) from everything else. *)
Inductive exn :=
| RequestException (msg : string)
| OtherException (class_name msg : string).

(** [str(e)] *)
Definition exn_str (e : exn) : string :=
  match e with
  | RequestException msg => msg
  | OtherException _ msg => msg
  end.

Definition isinstance_RequestException (e : exn) : bool :=
  match e with
  | RequestException _ => true
  | OtherException _ _ => false
  end.

Record Response := { status_code : Z }.

(** What one call of [requests.get] does: it returns a response or raises. *)
Inductive get_result :=
| Returns (r : Response)
| Raises (e : exn).

(** The outside world of one run: the successive readings of the wall clock
    and the answer of the HTTP client to [requests.get(url, timeout=t)]. *)
Record World := {
  clock : nat -> float;
  http : value -> value -> get_result
}.

Module logging.
Inductive level := DEBUG | ERROR.
End logging.

(** The palette entries of [self.style] the command uses. *)
Module style.
Inductive role := SUCCESS | WARNING | ERROR.
End style.

(** One [self.stdout.write(self.style.ROLE(text))]. *)
Record styled := { role_of : style.role; text_of : string }.

(** The names that [handle] binds inside its [try] statement; [None] is an
    unbound name.  Python unbinds [e] when the [except] block ends; the frame
    keeps it, so that the exception that was caught shows in the final
    state. *)
Record Locals := {
  start_time : option float;
  response : option Response;
  response_time : option float;
  e : option exn
}.

Definition no_locals : Locals :=
  {| start_time := None; response := None; response_time := None; e := None |}.

(** What a run does to the outside, one event per call. *)
Inductive event :=
| ClockRead (t : float)                       (* time.time() returned t *)
| Get (url timeout : value)                   (* requests.get(url, timeout=...) *)
| Log (l : logging.level) (msg : string)      (* a logger record *)
| Stdout (s : styled)                         (* self.stdout.write *)
| Stderr (s : string).

(** Everything a run leaves behind: the events in the order they happened,
    and the local variables. *)
Record State := {
  trace : list event;
  frame : Locals
}.

Definition initial : State := {| trace := []; frame := no_locals |}.

(** The number of calls of [time.time()] so far. *)
Fixpoint clock_reads (tr : list event) : nat :=
  match tr with
  | [] => 0%nat
  | ClockRead _ :: tr' => S (clock_reads tr')
  | _ :: tr' => clock_reads tr'
  end.

(** The trace, one collaborator at a time. *)
Definition requests (st : State) : list (value * value) :=
  flat_map (fun ev => match ev with Get u t => [(u, t)] | _ => [] end)
    (trace st).

Definition log (st : State) : list (logging.level * string) :=
  flat_map (fun ev => match ev with Log l m => [(l, m)] | _ => [] end)
    (trace st).

Definition stdout (st : State) : list styled :=
  flat_map (fun ev => match ev with Stdout s => [s] | _ => [] end)
    (trace st).

Definition stderr (st : State) : list string :=
  flat_map (fun ev => match ev with Stderr s => [s] | _ => [] end)
    (trace st).

(** ** Computations that change the state and may raise *)

Inductive result (A : Type) :=
| Returned (a : A)
| Raised (e : exn).
Arguments Returned {A} a.
Arguments Raised {A} e.

Definition M (A : Type) : Type := State -> result A * State.

Definition ret {A} (a : A) : M A := fun st => (Returned a, st).

Definition raise {A} (e : exn) : M A := fun st => (Raised e, st).

Definition bind {A B} (m : M A) (k : A -> M B) : M B :=
  fun st =>
    match m st with
    | (Returned a, st') => k a st'
    | (Raised e, st') => (Raised e, st')
    end.

(** [try: body  except <class> as e: handler]: an exception of another class
    goes through. *)
Definition try_except {A} (body : M A) (caught : exn -> bool)
    (handler : exn -> M A) : M A :=
  fun st =>
    match body st with
    | (Returned a, st') => (Returned a, st')
    | (Raised e, st') =>
        if caught e then handler e st' else (Raised e, st')
    end.

Declare Scope py_scope.
Delimit Scope py_scope with py.
Notation "x <- m ;; k" := (bind m (fun x => k))
  (at level 61, m at next level, right associativity) : py_scope.
Notation "m ;; k" := (bind m (fun _ => k))
  (at level 61, right associativity) : py_scope.
Local Open Scope py_scope.

Definition emit (ev : event) (st : State) : State :=
  {| trace := trace st ++ [ev]; frame := frame st |}.

Definition set_frame (f : Locals -> Locals) : M unit :=
  fun st => (Returned tt, {| trace := trace st; frame := f (frame st) |}).

(** [time.time()] *)
Definition time_time (w : World) : M float :=
  fun st =>
    let t := clock w (clock_reads (trace st)) in
    (Returned t, emit (ClockRead t) st).

(** [requests.get(url, timeout=timeout)] *)
Definition requests_get (w : World) (url timeout : value) : M Response :=
  fun st =>
    match http w url timeout with
    | Returns r => (Returned r, emit (Get url timeout) st)
    | Raises e => (Raised e, emit (Get url timeout) st)
    end.

Definition logger_debug (msg : string) : M unit :=
  fun st => (Returned tt, emit (Log logging.DEBUG msg) st).

Definition logger_error (msg : string) : M unit :=
  fun st => (Returned tt, emit (Log logging.ERROR msg) st).

(** [self.stdout.write(...)] *)
Definition stdout_write (s : styled) : M unit :=
  fun st => (Returned tt, emit (Stdout s) st).

Definition style_SUCCESS (s : string) : styled :=
  {| role_of := style.SUCCESS; text_of := s |}.
Definition style_WARNING (s : string) : styled :=
  {| role_of := style.WARNING; text_of := s |}.
Definition style_ERROR (s : string) : styled :=
  {| role_of := style.ERROR; text_of := s |}.

(** The option dictionary [**options]. *)
Definition Options := list (string * value).

Fixpoint lookup (key : string) (d : Options) : option value :=
  match d with
  | [] => None
  | (k, v) :: d' => if String.eqb k key then Some v else lookup key d'
  end.

(** [options[key]] *)
Definition getitem (d : Options) (key : string) : M value :=
  match lookup key d with
  | Some v => ret v
  | None => raise (OtherException "KeyError" ("'" ++ key ++ "'"))
  end.

(** ** The command *)

Definition set_start_time (t : float) : M unit :=
  set_frame (fun f =>
    {| start_time := Some t; response := response f;
       response_time := response_time f; e := e f |}).

Definition set_response (r : Response) : M unit :=
  set_frame (fun f =>
    {| start_time := start_time f; response := Some r;
       response_time := response_time f; e := e f |}).

Definition set_response_time (t : float) : M unit :=
  set_frame (fun f =>
    {| start_time := start_time f; response := response f;
       response_time := Some t; e := e f |}).

Definition set_e (x : exn) : M unit :=
  set_frame (fun f =>
    {| start_time := start_time f; response := response f;
       response_time := response_time f; e := Some x |}).

(** A call starts with no local variable bound. *)
Definition new_frame : M unit := set_frame (fun _ => no_locals).

(** [Command.handle] *)
Definition handle (w : World) (options : Options) : M unit :=
  new_frame ;;
  url <- getitem options "url" ;;
  timeout <- getitem options "timeout" ;;
  try_except
    ((* Track the start time *)
     start_time <- time_time w ;;
     set_start_time start_time ;;
     logger_debug
       ("start to send a get request to the url=[" ++ py_str url ++ "]") ;;
     (* Send the request *)
     response <- requests_get w url timeout ;;
     set_response response ;;
     (* Calculate response time in milliseconds *)
     now <- time_time w ;;
     let response_time :=
       float_mul (float_sub now start_time) (float_of_int 1000) in
     set_response_time response_time ;;
     (* Check the status code *)
     if status_code response =? 200 then
       logger_debug ("Service at " ++ py_str url ++ " is available") ;;
       stdout_write
         (style_SUCCESS
            ("Service at " ++ py_str url ++ " is available! Response time: "
             ++ format_2f response_time ++ " ms"))
     else
       stdout_write
         (style_WARNING
            ("Service at " ++ py_str url ++ " responded with status: "
             ++ str_int (status_code response) ++ ". Response time: "
             ++ format_2f response_time ++ " ms")))
    isinstance_RequestException
    (fun e =>
       set_e e ;;
       logger_error
         ("Failed to check service at " ++ py_str url ++ ": " ++ exn_str e) ;;
       stdout_write
         (style_ERROR
            ("Failed to check service at " ++ py_str url ++ ": "
             ++ exn_str e))).

(** ** The arguments of the command *)

Inductive arg_type := type_str | type_int.

(** One [parser.add_argument(name, type=..., default=..., help=...)]. *)
Record Argument := {
  name : string;
  type : arg_type;
  default : option value;
  help : string
}.

Definition Parser := list Argument.

Definition add_argument (parser : Parser) (a : Argument) : Parser :=
  (parser ++ [a])%list.

(** [Command.add_arguments] *)
Definition add_arguments (parser : Parser) : Parser :=
  let parser :=
    add_argument parser
      {| name := "url";
         type := type_str;
         default := None;
         help := "The URL of the service to check" |} in
  add_argument parser
    {| name := "--timeout";
       type := type_int;
       default := Some (VInt 10);
       help := "Timeout in seconds for the request (default: 10 seconds)" |}.

(** *** The conversions of the arguments

    [type=str] keeps the text.  [type=int] is [int(text)]: white space around
    the literal is dropped, a sign may come first, single underscores may
    stand between digits, and a literal with more digits than the
    interpreter's limit on integer conversion is refused.  The limit is
    [sys.get_int_max_str_digits()]: 4300 by default from Python 3.11 on, 0
    when there is none; it never applies to 640 digits or fewer.

    Command-line texts are taken to be ASCII.  On other characters the
    built-ins do more than is modelled here: [int] also reads the decimal
    digits and the white space of other scripts, and [repr] escapes what is
    not printable. *)

Definition default_max_str_digits : Z := 4300.

(** The characters that [int] skips around a literal. *)
Definition is_space (c : ascii) : bool :=
  (((9 <=? N_of_ascii c) && (N_of_ascii c <=? 13))
   || (N_of_ascii c =? 32))%N.

Fixpoint lstrip (s : string) : string :=
  match s with
  | "" => ""
  | String c s' => if is_space c then lstrip s' else s
  end.

Fixpoint rstrip (s : string) : string :=
  match s with
  | "" => ""
  | String c s' =>
      match rstrip s' with
      | "" => if is_space c then "" else String c ""
      | r => String c r
      end
  end.

Definition strip (s : string) : string := lstrip (rstrip s).

(** The digits of a literal, its underscores left out; [None] when the
    literal is empty, holds another character, or has an underscore that is
    not between two digits.  [prev] tells that the character before is a
    digit. *)
Fixpoint literal_digits (prev : bool) (s : string) : option string :=
  match s with
  | "" => if prev then Some "" else None
  | String c s' =>
      if is_digit c then option_map (String c) (literal_digits true s')
      else if Ascii.eqb c "_" then
        if prev then
          match s' with
          | String c' _ =>
              if is_digit c' then literal_digits false s' else None
          | "" => None
          end
        else None
      else None
  end.

(** The interpreter refuses to convert that many digits. *)
Definition over_limit (limit : Z) (ds : string) : bool :=
  (0 <? limit) && (Z.max limit 640 <? Z.of_nat (String.length ds)).

(** The sign that may come first, and the rest. *)
Definition split_sign (s : string) : bool * string :=
  match s with
  | "" => (false, "")
  | String c b =>
      if Ascii.eqb c "-" then (true, b)
      else if Ascii.eqb c "+" then (false, b)
      else (false, s)
  end.

(** [int(text)] under the limit [limit]. *)
Definition py_int (limit : Z) (text : string) : option Z :=
  let '(negative, body) := split_sign (strip text) in
  match literal_digits false body with
  | None => None
  | Some ds =>
      if over_limit limit ds then None
      else
        option_map
          (fun d => if negative then - Z.of_uint d else Z.of_uint d)
          (NilZero.uint_of_string ds)
  end.

Definition convert (limit : Z) (t : arg_type) (text : string)
  : option value :=
  match t with
  | type_str => Some (VStr text)
  | type_int => option_map VInt (py_int limit text)
  end.

Definition type_name (t : arg_type) : string :=
  match t with
  | type_str => "str"
  | type_int => "int"
  end.

(** [repr(text)], which the parser's messages use to show a text. *)
Definition double_quote : ascii := "034".
Definition backslash : ascii := "092".

Fixpoint contains (c : ascii) (s : string) : bool :=
  match s with
  | "" => false
  | String c' s' => Ascii.eqb c c' || contains c s'
  end.

Definition hex_digit (n : N) : ascii :=
  if (n <? 10)%N then ascii_of_N (48 + n) else ascii_of_N (87 + n).

Definition repr_char (quote c : ascii) : string :=
  if Ascii.eqb c quote || Ascii.eqb c backslash
  then String backslash (String c "")
  else if Ascii.eqb c "009" then String backslash "t"
  else if Ascii.eqb c "010" then String backslash "n"
  else if Ascii.eqb c "013" then String backslash "r"
  else if ((N_of_ascii c <? 32) || (N_of_ascii c =? 127))%N
  then String backslash
         (String "x"
            (String (hex_digit (N_of_ascii c / 16))
               (String (hex_digit (N_of_ascii c mod 16)) "")))
  else String c "".

Fixpoint repr_body (quote : ascii) (s : string) : string :=
  match s with
  | "" => ""
  | String c s' => repr_char quote c ++ repr_body quote s'
  end.

Definition py_repr (s : string) : string :=
  let quote :=
    if contains "'" s && negb (contains double_quote s)
    then double_quote else "'"%char in
  String quote (repr_body quote s ++ String quote "").

(** *** How the framework's parser reads a command line

    The splitting of the command line into tokens is the argument parser's
    own business and is not modelled: a command line is given as the items
    the parser makes of it, in their order.  What the declarations of
    [add_arguments] decide is modelled: which arguments are required, how
    their text is converted, what stands in for an absent option, and which
    error comes first.  Flags are written in full, and of the framework's own
    options only [--help] and [--version] are items: a command line with
    another of them, or with an abbreviated flag, is outside the model. *)

Inductive item :=
| Help                                          (* -h or --help *)
| Version                                       (* --version *)
| Opt (flag : string) (value : option string)   (* an option and its value, if one is given *)
| Arg (text : string).                          (* an argument that is no option *)

Definition Argv := list item.

(** A name that starts with [-] declares an option, any other name a
    positional argument, which is required. *)
Definition is_optional (a : Argument) : bool :=
  match name a with
  | String "-" _ => true
  | _ => false
  end.

Fixpoint lstrip_dashes (s : string) : string :=
  match s with
  | String "-" s' => lstrip_dashes s'
  | _ => s
  end.

Fixpoint dashes_to_underscores (s : string) : string :=
  match s with
  | "" => ""
  | String c s' =>
      String (if Ascii.eqb c "-" then "_"%char else c)
        (dashes_to_underscores s')
  end.

(** The key of the argument in the option dictionary: the name of a
    positional argument; the name of an option without its leading dashes,
    the other dashes turned into underscores. *)
Definition dest (a : Argument) : string :=
  if is_optional a then dashes_to_underscores (lstrip_dashes (name a))
  else name a.

(** How a parse ends: with the option dictionary, with a call of the
    parser's [error(message)], or with the help or the version shown. *)
Inductive parse_result :=
| Namespace (options : Options)
| Error (message : string)
| ShowHelp
| ShowVersion.

(** What the parser holds while it reads: the values converted so far (the
    latest first), the positional arguments still to be filled, and the
    items it does not recognise. *)
Record Partial := {
  values : Options;
  unfilled : list Argument;
  extras : list string
}.

Definition find_option (flag : string) (p : Parser) : option Argument :=
  find (fun a => is_optional a && String.eqb (name a) flag) p.

Definition conversion_error (a : Argument) (text : string) : parse_result :=
  Error ("argument " ++ name a ++ ": invalid " ++ type_name (type a)
         ++ " value: " ++ py_repr text).

(** The items are read from left to right; the first error, [--help] or
    [--version] ends the reading. *)
Fixpoint scan (limit : Z) (p : Parser) (argv : Argv) (acc : Partial)
  : parse_result + Partial :=
  match argv with
  | [] => inr acc
  | Help :: _ => inl ShowHelp
  | Version :: _ => inl ShowVersion
  | Opt flag v :: rest =>
      match find_option flag p with
      | None =>
          scan limit p rest
            {| values := values acc;
               unfilled := unfilled acc;
               extras :=
                 extras acc
                 ++ [match v with
                     | None => flag
                     | Some text => flag ++ "=" ++ text
                     end] |}
      | Some a =>
          match v with
          | None =>
              inl (Error ("argument " ++ name a ++ ": expected one argument"))
          | Some text =>
              match convert limit (type a) text with
              | Some x =>
                  scan limit p rest
                    {| values := (dest a, x) :: values acc;
                       unfilled := unfilled acc;
                       extras := extras acc |}
              | None => inl (conversion_error a text)
              end
          end
      end
  | Arg text :: rest =>
      match unfilled acc with
      | [] =>
          scan limit p rest
            {| values := values acc;
               unfilled := [];
               extras := extras acc ++ [text] |}
      | a :: others =>
          match convert limit (type a) text with
          | Some x =>
              scan limit p rest
                {| values := (dest a, x) :: values acc;
                   unfilled := others;
                   extras := extras acc |}
          | None => inl (conversion_error a text)
          end
      end
  end.

(** After the last item: a required argument that was not given is an error,
    then an item that was not recognised; else every declared argument gets
    its value or its default. *)
Definition finish (p : Parser) (acc : Partial) : parse_result :=
  match unfilled acc with
  | _ :: _ =>
      Error ("the following arguments are required: "
             ++ String.concat ", " (map name (unfilled acc)))
  | [] =>
      match extras acc with
      | _ :: _ =>
          Error ("unrecognized arguments: " ++ String.concat " " (extras acc))
      | [] =>
          Namespace
            (map (fun a =>
                    (dest a,
                     match lookup (dest a) (values acc) with
                     | Some v => v
                     | None =>
                         match default a with Some v => v | None => VNone end
                     end)) p)
      end
  end.

(** [parser.parse_args] *)
Definition parse_args (limit : Z) (p : Parser) (argv : Argv) : parse_result :=
  match
    scan limit p argv
      {| values := [];
         unfilled := filter (fun a => negb (is_optional a)) p;
         extras := [] |}
  with
  | inl r => r
  | inr acc => finish p acc
  end.

(** *** Running the command from the command line

    In a project whose settings load and whose system checks pass, the
    framework parses the command line with the parser that [add_arguments]
    has extended and calls [handle] only with a complete option dictionary.
    How the run ends is told at the boundary with the framework. *)
Inductive ending :=
| Exits (status : Z)
    (* [handle] has returned and the process ends with this status *)
| UsageError (message : string)
    (* the parser's [error(message)]: the usage line and the message on
       standard error, exit status 2 *)
| PrintsHelp
    (* the help on standard output, exit status 0 *)
| PrintsVersion
    (* the version on standard output, exit status 0 *)
| Propagates (e : exn).
    (* the exception leaves [handle]; what the framework and the interpreter
       make of it is not modelled *)

Definition exit_status (r : ending) : option Z :=
  match r with
  | Exits status => Some status
  | UsageError _ => Some 2
  | PrintsHelp | PrintsVersion => Some 0
  | Propagates _ => None
  end.

Definition run_from_argv (limit : Z) (w : World) (argv : Argv) (st : State)
  : ending * State :=
  match parse_args limit (add_arguments []) argv with
  | ShowHelp => (PrintsHelp, st)
  | ShowVersion => (PrintsVersion, st)
  | Error message => (UsageError message, st)
  | Namespace options =>
      match handle w options st with
      | (Returned _, st') => (Exits 0, st')
      | (Raised e, st') => (Propagates e, st')
      end
  end.

(** *** The output stream

    [self.style.ROLE(text)] is the text itself under a palette that has no
    format for the role (a stream that is no terminal, [--no-color]), and
    else the text between the escape sequence of the role's codes and the
    reset sequence.  The stream ends each write with a newline unless what
    it is given already ends with one. *)
Definition Palette := style.role -> option string.

Definition no_style : Palette := fun _ => None.

Definition escape : string := String "027" "[".

Definition paint (p : Palette) (s : styled) : string :=
  match p (role_of s) with
  | None => text_of s
  | Some codes => escape ++ codes ++ "m" ++ text_of s ++ escape ++ "0m"
  end.

Fixpoint ends_with_newline (s : string) : bool :=
  match s with
  | "" => false
  | String c "" => Ascii.eqb c "010"
  | String _ s' => ends_with_newline s'
  end.

Definition written (p : Palette) (s : styled) : string :=
  if ends_with_newline (paint p s) then paint p s
  else paint p s ++ String "010" "".

(** ** The result of a check, in the words of the specification

    The three classifications of a run are told apart by the palette entry
    of the line it wrote; the status code is that of the response bound in
    the frame, the error message the text of the exception bound there. *)

Inductive Outcome := Available | UnavailableStatus | Failed.

Definition outcome_of (r : style.role) : Outcome :=
  match r with
  | style.SUCCESS => Available
  | style.WARNING => UnavailableStatus
  | style.ERROR => Failed
  end.

Record CheckResult := {
  outcome : Outcome;
  statusCode : option Z;
  responseTimeMs : option float;
  errorMessage : option string
}.

(** The result of a run that started in [initial] and ended in [st]; a run
    that wrote nothing has none. *)
Definition check_result (st : State) : option CheckResult :=
  match stdout st with
  | [line] =>
      Some {| outcome := outcome_of (role_of line);
              statusCode := option_map status_code (response (frame st));
              responseTimeMs := response_time (frame st);
              errorMessage := option_map exn_str (e (frame st)) |}
  | _ => None
  end.

(** One run of [handle] from the initial state. *)
Definition run (w : World) (options : Options) : result unit * State :=
  handle w options initial.

(** The options of [check_service URL --timeout T]. *)
Definition options_of (url : string) (timeout : Z) : Options :=
  [("url", VStr url); ("timeout", VInt timeout)].

(** ** The messages and the events of a run *)

Definition newline : string := String "010" "".

(** The three templates of the line on standard output. *)
Definition available_message (url : string) (ms : float) : string :=
  "Service at " ++ url ++ " is available! Response time: "
  ++ format_2f ms ++ " ms".

Definition unavailable_message (url : string) (code : Z) (ms : float)
  : string :=
  "Service at " ++ url ++ " responded with status: " ++ str_int code
  ++ ". Response time: " ++ format_2f ms ++ " ms".

Definition failed_message (url msg : string) : string :=
  "Failed to check service at " ++ url ++ ": " ++ msg.

(** The three log records. *)
Definition request_log (url : string) : logging.level * string :=
  (logging.DEBUG, "start to send a get request to the url=[" ++ url ++ "]").

Definition available_log (url : string) : logging.level * string :=
  (logging.DEBUG, "Service at " ++ url ++ " is available").

Definition failure_log (url msg : string) : logging.level * string :=
  (logging.ERROR, failed_message url msg).

(** [(end - start) * 1000] *)
Definition elapsed_ms (start stop : float) : float :=
  float_mul (float_sub stop start) (float_of_int 1000).

(** The first and the second reading of the clock of a run that starts in
    [st]. *)
Definition t_start (w : World) (st : State) : float :=
  clock w (clock_reads (trace st)).

Definition t_end (w : World) (st : State) : float :=
  clock w (S (clock_reads (trace st))).

(** The events up to and including the request. *)
Definition request_events (w : World) (url timeout : value) (st : State)
  : list event :=
  [ClockRead (t_start w st);
   Log logging.DEBUG (snd (request_log (py_str url)));
   Get url timeout].

(** The events after the request, by the answer of the client. *)
Definition outcome_events (w : World) (url timeout : value) (st : State)
  : list event :=
  match http w url timeout with
  | Returns r =>
      ClockRead (t_end w st) ::
      (if status_code r =? 200
       then [Log logging.DEBUG (snd (available_log (py_str url)));
             Stdout
               (style_SUCCESS
                  (available_message (py_str url)
                     (elapsed_ms (t_start w st) (t_end w st))))]
       else [Stdout
               (style_WARNING
                  (unavailable_message (py_str url) (status_code r)
                     (elapsed_ms (t_start w st) (t_end w st))))])
  | Raises (RequestException msg) =>
      [Log logging.ERROR (snd (failure_log (py_str url) msg));
       Stdout (style_ERROR (failed_message (py_str url) msg))]
  | Raises (OtherException _ _) => []
  end.

(** ** Predicates on texts and options *)

Definition present {A} (o : option A) : bool :=
  match o with Some _ => true | None => false end.

(** [needle] occurs in [text]. *)
Fixpoint mentions (needle text : string) : bool :=
  prefix needle text
  || match text with
     | "" => false
     | String _ text' => mentions needle text'
     end.

Fixpoint all_digits (s : string) : bool :=
  match s with
  | "" => true
  | String c s' => is_digit c && all_digits s'
  end.

Definition strip_sign (s : string) : string :=
  match s with
  | "" => ""
  | String c s' => if Ascii.eqb c "-" then s' else s
  end.

(** [s] is one or more digits, a point and exactly two digits; [seen] tells
    that a digit has been read already. *)
Fixpoint fixed2_shape (seen : bool) (s : string) : bool :=
  match s with
  | "" => false
  | String c s' =>
      if is_digit c then fixed2_shape true s'
      else
        Ascii.eqb c "." && seen
        && match s' with
           | String d1 (String d2 "") => is_digit d1 && is_digit d2
           | _ => false
           end
  end.

(** A decimal number with exactly two digits after the point. *)
Definition has_two_decimals (s : string) : bool :=
  fixed2_shape false (strip_sign s).

(** ** Worlds and command lines used as concrete inputs *)

(** A clock that stands still at [t0], and one that reads [1] and then
    [1.5]. *)
Definition frozen_clock (t0 : float) : nat -> float := fun _ => t0.

Definition clock_1_then_1_5 : nat -> float :=
  fun n => match n with O => float_of_int 1 | _ => float_of 3 (-1) end.

Definition at_rest : nat -> float := frozen_clock (float_of_int 0).

(** The world in which the clock reads [c] and every GET is answered by
    [g]. *)
Definition answers (c : nat -> float) (g : get_result) : World :=
  {| clock := c; http := fun _ _ => g |}.

Definition world_200 : World :=
  answers at_rest (Returns {| status_code := 200 |}).

Definition world_503 : World :=
  answers at_rest (Returns {| status_code := 503 |}).

Definition world_refused : World :=
  answers clock_1_then_1_5 (Raises (RequestException "Connection error")).

(** [requests.get] refuses a timeout that is not positive with a
    [ValueError], which is not a [RequestException]. *)
Definition world_value_error : World :=
  answers at_rest
    (Raises
       (OtherException "ValueError"
          "Attempted to set connect timeout to 0, but the timeout cannot be set to a value less than or equal to 0.")).

(** [check_service https://example.com] *)
Definition example_com : Argv := [Arg "https://example.com"].

(** [check_service https://example.com --timeout TEXT] *)
Definition example_cl_timeout (text : string) : Argv :=
  [Arg "https://example.com"; Opt "--timeout" (Some text)].

Definition example_options : Options := options_of "https://example.com" 10.

(** An ASCII letter; no decimal literal of [int] contains one. *)
Definition is_letter (c : ascii) : bool :=
  (((65 <=? N_of_ascii c) && (N_of_ascii c <=? 90))
   || ((97 <=? N_of_ascii c) && (N_of_ascii c <=? 122)))%N.

Fixpoint has_letter (s : string) : bool :=
  match s with
  | "" => false
  | String c s' => is_letter c || has_letter s'
  end.

(** What an event says, if it carries a text. *)
Definition event_text (ev : event) : option string :=
  match ev with
  | Log _ msg => Some msg
  | Stdout s => Some (text_of s)
  | Stderr s => Some s
  | ClockRead _ | Get _ _ => None
  end.

(** The number a decimal text [I.FF] denotes, in hundredths: the reading
    that goes with the format [.2f], used to say what a printed response
    time means.  [acc] is the value of the digits read so far. *)
Definition digit_value (c : ascii) : Z := Z.of_N (N_of_ascii c) - 48.

Fixpoint read_hundredths (acc : Z) (s : string) : option Z :=
  match s with
  | "" => None
  | String c s' =>
      if is_digit c then read_hundredths (10 * acc + digit_value c) s'
      else if Ascii.eqb c "." then
        match s' with
        | String d1 (String d2 "") =>
            if is_digit d1 && is_digit d2
            then Some (100 * acc + 10 * digit_value d1 + digit_value d2)
            else None
        | _ => None
        end
      else None
  end.

(** The value of the decimal digits [d] read after [acc]. *)
Fixpoint uint_value (acc : Z) (d : Decimal.uint) : Z :=
  match d with
  | Decimal.Nil => acc
  | Decimal.D0 d' => uint_value (10 * acc) d'
  | Decimal.D1 d' => uint_value (10 * acc + 1) d'
  | Decimal.D2 d' => uint_value (10 * acc + 2) d'
  | Decimal.D3 d' => uint_value (10 * acc + 3) d'
  | Decimal.D4 d' => uint_value (10 * acc + 4) d'
  | Decimal.D5 d' => uint_value (10 * acc + 5) d'
  | Decimal.D6 d' => uint_value (10 * acc + 6) d'
  | Decimal.D7 d' => uint_value (10 * acc + 7) d'
  | Decimal.D8 d' => uint_value (10 * acc + 8) d'
  | Decimal.D9 d' => uint_value (10 * acc + 9) d'
  end.

(** ** Further concrete inputs *)

(** The malformed URL [http://example..com] does not reach the network: the
    URL parser underneath [requests] raises its own [LocationParseError],
    which is no [RequestException]. *)
Definition malformed_url : string := "http://example..com".

Definition world_malformed : World :=
  answers at_rest
    (Raises
       (OtherException "LocationParseError"
          "Failed to parse: 'example..com', label empty or too long")).

(** The largest finite float, and a clock that jumps from its opposite to
    it. *)
Definition float_max : float := S754_finite false (2 ^ 53 - 1) 971.

Definition clock_overflow : nat -> float :=
  fun n => match n with O => SFopp float_max | _ => float_max end.

Definition world_overflow : World :=
  answers clock_overflow (Returns {| status_code := 200 |}).

(** A palette with colours: bold green, bold yellow, bold red. *)
Definition sample_palette : Palette :=
  fun r =>
    match r with
    | style.SUCCESS => Some "32;1"
    | style.WARNING => Some "33;1"
    | style.ERROR => Some "31;1"
    end.

(** The positional arguments of a parser. *)
Definition positionals (p : Parser) : list Argument :=
  filter (fun a => negb (is_optional a)) p.

(** The state of the parser before the first item. *)
Definition start_of (p : Parser) : Partial :=
  {| values := []; unfilled := positionals p; extras := [] |}.

(** [--help] or [--version]. *)
Definition is_help_or_version (it : item) : bool :=
  match it with
  | Help | Version => true
  | Opt _ _ | Arg _ => false
  end.



(** The two declarations of the command. *)
Definition url_argument : Argument :=
  {| name := "url";
     type := type_str;
     default := None;
     help := "The URL of the service to check" |}.

Definition timeout_argument : Argument :=
  {| name := "--timeout";
     type := type_int;
     default := Some (VInt 10);
     help := "Timeout in seconds for the request (default: 10 seconds)" |}.

(** What holds of the parser of the command while it reads: [url] is still
    to be filled or holds a text, and [timeout] holds an integer if it holds
    anything. *)
Definition reading (acc : Partial) : Prop :=
  (unfilled acc = [url_argument]
   \/ unfilled acc = []
      /\ exists u, lookup "url" (values acc) = Some (VStr u))
  /\ (lookup "timeout" (values acc) = None
      \/ exists n, lookup "timeout" (values acc) = Some (VInt n)).

(** The parser's state after an item that it goes on from. *)
Definition with_timeout (n : Z) (acc : Partial) : Partial :=
  {| values := ("timeout", VInt n) :: values acc;
     unfilled := unfilled acc;
     extras := extras acc |}.

Definition with_url (text : string) (acc : Partial) : Partial :=
  {| values := ("url", VStr text) :: values acc;
     unfilled := [];
     extras := extras acc |}.

Definition with_extra (text : string) (acc : Partial) : Partial :=
  {| values := values acc;
     unfilled := unfilled acc;
     extras := extras acc ++ [text] |}.

(** * Properties *)

(** ** The format and the arithmetic on small examples *)

Example format_2f_500 : format_2f (float_of 500 0) = "500.00".
Proof. reflexivity. Qed.

Example format_2f_half_even : format_2f (float_of 1 (-3)) = "0.12".
Proof. reflexivity. Qed.

Example format_2f_up : format_2f (float_of 3 (-3)) = "0.38".
Proof. reflexivity. Qed.

Example format_2f_neg : format_2f (float_of (-1) (-10)) = "-0.00".
Proof. reflexivity. Qed.

Example sub_mul_500 :
  float_mul (float_sub (float_of 3 (-1)) (float_of_int 1)) (float_of_int 1000)
  = float_of 500 0.
Proof. reflexivity. Qed.


(** ** The scenarios of the test suite *)

Example test_service_available :
  let '(ending, st) :=
    run_from_argv default_max_str_digits
      (answers (frozen_clock (float_of_int 0))
               (Returns {| status_code := 200 |}))
      example_com initial in
  ending = Exits 0 /\
  map (written no_style) (stdout st) =
    ["Service at https://example.com is available! Response time: 0.00 ms"
     ++ newline].
Proof. split; reflexivity. Qed.

Example test_service_unavailable :
  let '(ending, st) :=
    run_from_argv default_max_str_digits
      (answers (frozen_clock (float_of_int 0))
               (Returns {| status_code := 503 |}))
      example_com initial in
  ending = Exits 0 /\
  map (written no_style) (stdout st) =
    ["Service at https://example.com responded with status: 503. Response time: 0.00 ms"
     ++ newline].
Proof. split; reflexivity. Qed.

Example test_missing_url_argument :
  parse_args default_max_str_digits (add_arguments []) [] =
    Error "the following arguments are required: url".
Proof. reflexivity. Qed.

Example test_request_exception_handling :
  let '(ending, st) :=
    run_from_argv default_max_str_digits
      (answers (frozen_clock (float_of_int 0))
               (Raises (RequestException "Connection error")))
      example_com initial in
  ending = Exits 0 /\
  map (written no_style) (stdout st) =
    ["Failed to check service at https://example.com: Connection error"
     ++ newline].
Proof. split; reflexivity. Qed.

Example test_custom_timeout :
  requests
    (snd (run_from_argv default_max_str_digits
            (answers (frozen_clock (float_of_int 0))
                     (Returns {| status_code := 200 |}))
            [Arg "https://example.com"; Opt "--timeout" (Some "5")] initial))
  = [(VStr "https://example.com", VInt 5)].
Proof. reflexivity. Qed.

Example test_response_time_calculation :
  map (written no_style)
    (stdout
       (snd (run_from_argv default_max_str_digits
               (answers clock_1_then_1_5 (Returns {| status_code := 200 |}))
               example_com initial)))
  = ["Service at https://example.com is available! Response time: 500.00 ms"
     ++ newline].
Proof. reflexivity. Qed.

(** ** The built-ins on small examples *)

Example py_int_forms :
  py_int default_max_str_digits " 7 " = Some 7 /\
  py_int default_max_str_digits "1_000" = Some 1000 /\
  py_int default_max_str_digits "+12" = Some 12 /\
  py_int default_max_str_digits "-0" = Some 0 /\
  py_int default_max_str_digits "1__0" = None /\
  py_int default_max_str_digits "- 5" = None /\
  py_int default_max_str_digits "" = None.
Proof. repeat split. Qed.

Example py_repr_forms :
  py_repr "abc" = "'abc'" /\
  py_repr "a'b" = String double_quote ("a'b" ++ String double_quote "").
Proof. split; reflexivity. Qed.

Example parse_order :
  parse_args default_max_str_digits (add_arguments [])
    [Opt "--timeout" None; Help]
  = Error "argument --timeout: expected one argument" /\
  parse_args default_max_str_digits (add_arguments [])
    [Help; Opt "--timeout" None]
  = ShowHelp /\
  parse_args default_max_str_digits (add_arguments [])
    [Arg "a"; Arg "b"]
  = Error "unrecognized arguments: b".
Proof. repeat split. Qed.


(** ** Traces *)

Lemma clock_reads_app tr tr' :
  clock_reads (tr ++ tr') = (clock_reads tr + clock_reads tr')%nat.
Proof.
  induction tr as [|ev tr IH]; [reflexivity|].
  destruct ev; cbn; rewrite IH; reflexivity.
Qed.

(** Splits the trace of a final state into what each collaborator saw. *)
Ltac project :=
  unfold requests, log, stdout, stderr, emit;
  cbn [trace fst snd];
  rewrite ?flat_map_app; cbn; rewrite ?app_nil_r.

(** ** The three ways through [handle] *)

(** Unfolds the primitives of the monad on both sides of the goal. *)
Ltac unfold_py :=
  unfold try_except, bind, ret, raise, new_frame, set_start_time,
    set_response, set_response_time, set_e, set_frame, time_time,
    requests_get, logger_debug, logger_error, stdout_write,
    emit; cbn.

Section Paths.

Variable w : World.
Variable options : Options.
Variables url timeout : value.
Hypothesis Hurl : lookup "url" options = Some url.
Hypothesis Htimeout : lookup "timeout" options = Some timeout.

Local Lemma reads_after_request st :
  clock_reads
    ((((trace st ++ [ClockRead (t_start w st)])
       ++ [Log logging.DEBUG (snd (request_log (py_str url)))])
      ++ [Get url timeout]))
  = S (clock_reads (trace st)).
Proof. rewrite !clock_reads_app; cbn. lia. Qed.

(** A response came back. *)
Lemma handle_response st r :
  http w url timeout = Returns r ->
  handle w options st =
    (Returned tt,
     {| trace :=
          trace st ++ request_events w url timeout st ++
          ClockRead (t_end w st) ::
          (if status_code r =? 200
           then [Log logging.DEBUG (snd (available_log (py_str url)));
                 Stdout
                   (style_SUCCESS
                      (available_message (py_str url)
                         (elapsed_ms (t_start w st) (t_end w st))))]
           else [Stdout
                   (style_WARNING
                      (unavailable_message (py_str url) (status_code r)
                         (elapsed_ms (t_start w st) (t_end w st))))]);
        frame :=
          {| start_time := Some (t_start w st);
             response := Some r;
             response_time := Some (elapsed_ms (t_start w st) (t_end w st));
             e := None |} |}).
Proof.
  intros Hget.
  unfold handle, getitem; rewrite Hurl, Htimeout.
  unfold_py. rewrite Hget; cbn.
  fold (t_start w st). rewrite reads_after_request. fold (t_end w st).
  destruct (status_code r =? 200); cbn;
    rewrite <- !app_assoc; reflexivity.
Qed.

(** The request raised a [RequestException]. *)
Lemma handle_request_exception st msg :
  http w url timeout = Raises (RequestException msg) ->
  handle w options st =
    (Returned tt,
     {| trace :=
          trace st ++ request_events w url timeout st ++
          [Log logging.ERROR (snd (failure_log (py_str url) msg));
           Stdout (style_ERROR (failed_message (py_str url) msg))];
        frame :=
          {| start_time := Some (t_start w st);
             response := None;
             response_time := None;
             e := Some (RequestException msg) |} |}).
Proof.
  intros Hget.
  unfold handle, getitem; rewrite Hurl, Htimeout.
  unfold_py. rewrite Hget; cbn.
  rewrite <- !app_assoc; reflexivity.
Qed.

(** The request raised something else. *)
Lemma handle_other_exception st c msg :
  http w url timeout = Raises (OtherException c msg) ->
  handle w options st =
    (Raised (OtherException c msg),
     {| trace := trace st ++ request_events w url timeout st;
        frame :=
          {| start_time := Some (t_start w st);
             response := None;
             response_time := None;
             e := None |} |}).
Proof.
  intros Hget.
  unfold handle, getitem; rewrite Hurl, Htimeout.
  unfold_py. rewrite Hget; cbn.
  rewrite <- !app_assoc; reflexivity.
Qed.

End Paths.


Lemma lookup_options_of u t :
  lookup "url" (options_of u t) = Some (VStr u) /\
  lookup "timeout" (options_of u t) = Some (VInt t).
Proof. split; reflexivity. Qed.


(** ** The trace and the result of [handle] in one statement *)

(** The whole trace of a call of [handle], whatever the client answers. *)
Lemma handle_trace w options url timeout st :
  lookup "url" options = Some url ->
  lookup "timeout" options = Some timeout ->
  trace (snd (handle w options st)) =
    (trace st ++ request_events w url timeout st
     ++ outcome_events w url timeout st)%list.
Proof.
  intros Hu Ht. unfold outcome_events.
  destruct (http w url timeout) as [r|[msg|c msg]] eqn:Hget.
  - rewrite (handle_response w options url timeout Hu Ht st r Hget).
    reflexivity.
  - rewrite (handle_request_exception w options url timeout Hu Ht st msg Hget).
    reflexivity.
  - rewrite (handle_other_exception w options url timeout Hu Ht st c msg Hget).
    cbn [snd trace]. rewrite app_nil_r. reflexivity.
Qed.

(** [handle] returns unless the client raises something that is not a
    [RequestException], which leaves [handle] as it is. *)
Lemma handle_result w options url timeout st :
  lookup "url" options = Some url ->
  lookup "timeout" options = Some timeout ->
  fst (handle w options st) =
    match http w url timeout with
    | Raises (OtherException c msg) => Raised (OtherException c msg)
    | _ => Returned tt
    end.
Proof.
  intros Hu Ht.
  destruct (http w url timeout) as [r|[msg|c msg]] eqn:Hget.
  - rewrite (handle_response w options url timeout Hu Ht st r Hget).
    reflexivity.
  - rewrite (handle_request_exception w options url timeout Hu Ht st msg Hget).
    reflexivity.
  - rewrite (handle_other_exception w options url timeout Hu Ht st c msg Hget).
    reflexivity.
Qed.

(** ** Classification of a response *)

(** C1: when the GET returns a response, the run is classified Available
    exactly when the status code is 200; any other code gives
    UnavailableStatus, with the code captured and the same warning line
    whatever the code is. *)
Theorem status_200_iff_available w options url timeout r :
  lookup "url" options = Some url ->
  lookup "timeout" options = Some timeout ->
  http w url timeout = Returns r ->
  exists cr,
    check_result (snd (run w options)) = Some cr /\
    statusCode cr = Some (status_code r) /\
    (outcome cr = Available <-> status_code r = 200) /\
    (status_code r <> 200 ->
     outcome cr = UnavailableStatus /\
     stdout (snd (run w options)) =
       [style_WARNING
          (unavailable_message (py_str url) (status_code r)
             (elapsed_ms (clock w 0) (clock w 1)))]).
Proof.
  intros Hu Ht Hget. unfold run.
  rewrite (handle_response w options url timeout Hu Ht initial r Hget).
  unfold check_result; project.
  destruct (Z.eqb_spec (status_code r) 200) as [E|E]; cbn;
    eexists; (split; [reflexivity|]); cbn; repeat split;
    try congruence; try (intros; discriminate).
Qed.

Lemma status_200_iff_available_witness :
  exists cr,
    check_result (snd (run world_503 example_options)) = Some cr /\
    statusCode cr = Some 503 /\
    (outcome cr = Available <-> 503 = 200) /\
    (503 <> 200 ->
     outcome cr = UnavailableStatus /\
     stdout (snd (run world_503 example_options)) =
       [style_WARNING
          (unavailable_message "https://example.com" 503
             (elapsed_ms (float_of_int 0) (float_of_int 0)))]).
Proof.
  apply (status_200_iff_available world_503 example_options
           (VStr "https://example.com") (VInt 10) {| status_code := 503 |});
    reflexivity.
Defined.


(** ** Digits *)

Lemma digit_is_digit n : is_digit (digit n) = true.
Proof.
  unfold digit, is_digit.
  pose proof (Z.mod_pos_bound n 10 ltac:(lia)) as Hb.
  assert (Hc : n mod 10 = 0 \/ n mod 10 = 1 \/ n mod 10 = 2 \/ n mod 10 = 3
               \/ n mod 10 = 4 \/ n mod 10 = 5 \/ n mod 10 = 6
               \/ n mod 10 = 7 \/ n mod 10 = 8 \/ n mod 10 = 9) by lia.
  repeat destruct Hc as [Hc|Hc]; rewrite Hc; reflexivity.
Qed.

Lemma all_digits_string_of_uint d :
  all_digits (NilEmpty.string_of_uint d) = true.
Proof. induction d; cbn; auto. Qed.

Lemma digits_shape n :
  exists c s, digits n = String c s /\ is_digit c = true
              /\ all_digits s = true.
Proof.
  unfold digits, NilZero.string_of_uint.
  destruct (N.to_uint (Z.to_N n)) as [|d|d|d|d|d|d|d|d|d|d];
    cbn [NilEmpty.string_of_uint];
    do 2 eexists; (split; [reflexivity|]); split;
    (reflexivity || apply all_digits_string_of_uint).
Qed.

Lemma is_digit_not_minus c : is_digit c = true -> Ascii.eqb c "-" = false.
Proof.
  destruct c as [[] [] [] [] [] [] [] []]; cbn; congruence.
Qed.

Lemma fixed2_shape_digits ds seen d1 d2 :
  all_digits ds = true ->
  seen = true \/ ds <> "" ->
  is_digit d1 = true -> is_digit d2 = true ->
  fixed2_shape seen (ds ++ "." ++ String d1 (String d2 "")) = true.
Proof.
  revert seen. induction ds as [|c ds IH]; intros seen Hall Hseen H1 H2.
  - destruct Hseen as [->|Hne]; [|congruence].
    cbn. rewrite H1, H2. reflexivity.
  - cbn in Hall. apply andb_prop in Hall as [Hc Hds].
    cbn [append fixed2_shape]. rewrite Hc.
    apply IH; auto.
Qed.

Lemma has_two_decimals_fixed2 s h :
  has_two_decimals (sign_text s ++ fixed2 h) = true.
Proof.
  unfold has_two_decimals, fixed2.
  destruct (digits_shape (h / 100)) as (c & ds & E & Hc & Hds).
  assert (Hshape :
    fixed2_shape false
      (digits (h / 100) ++ "." ++ String (digit (h / 10)) (String (digit h) ""))
    = true).
  { apply fixed2_shape_digits; auto using digit_is_digit.
    - rewrite E; cbn. rewrite Hc, Hds. reflexivity.
    - right. rewrite E. discriminate. }
  destruct s; cbn [sign_text append strip_sign].
  - cbn. exact Hshape.
  - rewrite E in *. cbn [append strip_sign].
    rewrite (is_digit_not_minus c Hc). exact Hshape.
Qed.

(** A finite float is printed with exactly two decimal places. *)
Lemma format_2f_two_decimals x :
  is_finite x = true -> has_two_decimals (format_2f x) = true.
Proof.
  destruct x as [s|s| |s m ex]; cbn [is_finite format_2f];
    try discriminate; intros _; apply has_two_decimals_fixed2.
Qed.

(** The difference of a finite float with itself is [+0.0]. *)
Lemma float_sub_diag t :
  is_finite t = true -> float_sub t t = S754_zero false.
Proof.
  destruct t as [s|s| |s m ex]; cbn [is_finite]; try discriminate; intros _.
  - destruct s; reflexivity.
  - unfold float_sub, SFsub.
    set (a := cond_Zopp s _).
    change (binary_normalize prec emax (Z.sub a a) (Z.min ex ex) false
            = S754_zero false).
    rewrite Z.sub_diag. reflexivity.
Qed.


Lemma is_letter_not_digit c : is_letter c = true -> is_digit c = false.
Proof.
  destruct c as [[] [] [] [] [] [] [] []]; cbn; congruence.
Qed.

Lemma all_digits_no_letter s : all_digits s = true -> has_letter s = false.
Proof.
  induction s as [|c s IH]; [reflexivity|]. cbn.
  intros H. apply andb_prop in H as [Hc Hs].
  rewrite (IH Hs), orb_false_r.
  destruct (is_letter c) eqn:E; [|reflexivity].
  rewrite (is_letter_not_digit c E) in Hc. discriminate.
Qed.


(** ** The conversion [type=int] *)

Lemma is_digit_not_space c : is_digit c = true -> is_space c = false.
Proof.
  destruct c as [[] [] [] [] [] [] [] []]; cbn; congruence.
Qed.

Lemma is_digit_not_plus c : is_digit c = true -> Ascii.eqb c "+" = false.
Proof.
  destruct c as [[] [] [] [] [] [] [] []]; cbn; congruence.
Qed.

Lemma lstrip_digits s : all_digits s = true -> lstrip s = s.
Proof.
  destruct s as [|c s]; [reflexivity|]. cbn [all_digits lstrip].
  intros H. apply andb_prop in H as [Hc _].
  rewrite (is_digit_not_space c Hc). reflexivity.
Qed.

Lemma rstrip_digits s : all_digits s = true -> rstrip s = s.
Proof.
  induction s as [|c s IH]; [reflexivity|]. cbn [all_digits rstrip].
  intros H. apply andb_prop in H as [Hc Hs]. rewrite (IH Hs).
  destruct s; [rewrite (is_digit_not_space c Hc)|]; reflexivity.
Qed.

Lemma strip_digits s : all_digits s = true -> strip s = s.
Proof.
  intros H. unfold strip. rewrite (rstrip_digits s H). apply lstrip_digits, H.
Qed.

Lemma strip_minus_digits s :
  all_digits s = true -> strip (String "-" s) = String "-" s.
Proof.
  intros H. unfold strip. cbn [rstrip]. rewrite (rstrip_digits s H).
  destruct s; reflexivity.
Qed.

Lemma literal_digits_digits ds prev :
  all_digits ds = true -> prev = true \/ ds <> "" ->
  literal_digits prev ds = Some ds.
Proof.
  revert prev. induction ds as [|c ds IH]; intros prev Hall Hne.
  - destruct Hne as [->|Hne]; [reflexivity | congruence].
  - cbn [all_digits] in Hall. apply andb_prop in Hall as [Hc Hds].
    cbn [literal_digits]. rewrite Hc.
    rewrite (IH true Hds (or_introl eq_refl)). reflexivity.
Qed.

Lemma split_sign_digits ds : all_digits ds = true -> split_sign ds = (false, ds).
Proof.
  destruct ds as [|c ds]; [reflexivity|]. cbn [all_digits split_sign].
  intros H. apply andb_prop in H as [Hc _].
  rewrite (is_digit_not_minus c Hc), (is_digit_not_plus c Hc). reflexivity.
Qed.

(** The decimal text of a positive number: digits, at least one, that read
    back as the number. *)
Lemma str_int_pos p :
  let ds := str_int (Z.pos p) in
  all_digits ds = true /\ ds <> "" /\
  str_int (Z.neg p) = String "-" ds /\
  option_map Z.of_uint (NilZero.uint_of_string ds) = Some (Z.pos p).
Proof.
  unfold str_int. cbn [Z.to_int NilZero.string_of_int].
  assert (Hnz : Pos.to_uint p <> Decimal.Nil).
  { intros H. apply (f_equal Pos.of_uint) in H.
    rewrite DecimalPos.Unsigned.of_to in H. discriminate. }
  assert (Hv : Z.of_uint (Pos.to_uint p) = Z.pos p).
  { unfold Z.of_uint. rewrite DecimalPos.Unsigned.of_to. reflexivity. }
  rewrite (NilZero.usu _ Hnz). cbn [option_map]. rewrite Hv.
  assert (Hs : NilZero.string_of_uint (Pos.to_uint p)
               = NilEmpty.string_of_uint (Pos.to_uint p))
    by (destruct (Pos.to_uint p); [congruence | reflexivity ..]).
  rewrite Hs. repeat split.
  - apply all_digits_string_of_uint.
  - destruct (Pos.to_uint p); [congruence | discriminate ..].
Qed.

(** [int(str(n)) == n] when [str(n)] is within the limit. *)
Lemma py_int_str_int limit n :
  over_limit limit (str_int (Z.abs n)) = false ->
  py_int limit (str_int n) = Some n.
Proof.
  destruct n as [|p|p]; cbn [Z.abs]; intros Hlim.
  - change (str_int 0) with "0" in *.
    unfold py_int. cbn. rewrite Hlim. reflexivity.
  - destruct (str_int_pos p) as (Hall & Hne & _ & Hval).
    unfold py_int. rewrite (strip_digits _ Hall), (split_sign_digits _ Hall).
    cbv beta iota.
    rewrite (literal_digits_digits _ false Hall (or_intror Hne)), Hlim.
    exact Hval.
  - destruct (str_int_pos p) as (Hall & Hne & Hneg & Hval).
    unfold py_int. rewrite Hneg, (strip_minus_digits _ Hall).
    change (split_sign (String "-" (str_int (Z.pos p))))
      with (true, str_int (Z.pos p)).
    cbv beta iota.
    rewrite (literal_digits_digits _ false Hall (or_intror Hne)), Hlim.
    destruct (NilZero.uint_of_string (str_int (Z.pos p))) as [d|];
      [|discriminate].
    cbn [option_map] in *. injection Hval as ->. reflexivity.
Qed.






(** ** The parser of the command *)

Lemma add_arguments_nil :
  add_arguments [] = [url_argument; timeout_argument].
Proof. reflexivity. Qed.

(** One step of the reading, for the two declarations of the command. *)
Lemma scan_command limit it rest acc :
  reading acc ->
  scan limit (add_arguments []) (it :: rest) acc =
    match it with
    | Help => inl ShowHelp
    | Version => inl ShowVersion
    | Opt flag v =>
        if String.eqb "--timeout" flag then
          match v with
          | None => inl (Error "argument --timeout: expected one argument")
          | Some text =>
              match py_int limit text with
              | Some n =>
                  scan limit (add_arguments []) rest (with_timeout n acc)
              | None =>
                  inl (Error ("argument --timeout: invalid int value: "
                              ++ py_repr text))
              end
          end
        else
          scan limit (add_arguments []) rest
            (with_extra
               (match v with
                | None => flag
                | Some text => flag ++ "=" ++ text
                end) acc)
    | Arg text =>
        match unfilled acc with
        | [] => scan limit (add_arguments []) rest (with_extra text acc)
        | _ :: _ => scan limit (add_arguments []) rest (with_url text acc)
        end
    end.
Proof.
  intros [Hurl _]. rewrite add_arguments_nil.
  destruct it as [| |flag v|text]; try reflexivity.
  - cbn [scan]. unfold find_option. cbn [find is_optional url_argument
      timeout_argument name andb].
    destruct (String.eqb "--timeout" flag); [|reflexivity].
    destruct v as [text|]; [|reflexivity].
    unfold convert, conversion_error; cbn [type timeout_argument name dest
      is_optional type_name].
    destruct (py_int limit text); reflexivity.
  - cbn [scan]. unfold with_extra, with_url.
    destruct Hurl as [H|[H _]]; rewrite !H; reflexivity.
Qed.

Lemma reading_start : reading (start_of (add_arguments [])).
Proof. split; left; reflexivity. Qed.

Lemma reading_with_timeout n acc : reading acc -> reading (with_timeout n acc).
Proof.
  intros [Hurl _]. split.
  - destruct Hurl as [H|[H [u Hu]]]; [left; exact H|].
    right. split; [exact H|]. exists u. exact Hu.
  - right. exists n. reflexivity.
Qed.

Lemma reading_with_url text acc : reading acc -> reading (with_url text acc).
Proof.
  intros [_ Ht]. split.
  - right. split; [reflexivity|]. exists text. reflexivity.
  - exact Ht.
Qed.

Lemma reading_with_extra text acc : reading acc -> reading (with_extra text acc).
Proof. intros H. exact H. Qed.

(** The reading stops only for an error or, at [--help] or [--version],
    for these. *)
Lemma scan_inl limit p argv acc r :
  scan limit p argv acc = inl r ->
  (exists message, r = Error message)
  \/ (r = ShowHelp \/ r = ShowVersion)
     /\ existsb is_help_or_version argv = true.
Proof.
  revert acc. induction argv as [|it argv IH]; intros acc; [discriminate|].
  destruct it as [| |flag v|text]; cbn [scan existsb is_help_or_version orb].
  - intros [= <-]. right. split; [left|]; reflexivity.
  - intros [= <-]. right. split; [right|]; reflexivity.
  - destruct (find_option flag p) as [a|]; [|apply IH].
    destruct v as [text|]; [|intros [= <-]; left; eexists; reflexivity].
    destruct (convert limit (type a) text); [apply IH|].
    intros [= <-]. left. eexists. reflexivity.
  - destruct (unfilled acc) as [|a others]; [apply IH|].
    destruct (convert limit (type a) text); [apply IH|].
    intros [= <-]. left. eexists. reflexivity.
Qed.


Lemma scan_reading limit argv acc acc' :
  reading acc ->
  scan limit (add_arguments []) argv acc = inr acc' ->
  reading acc'.
Proof.
  revert acc. induction argv as [|it argv IH]; intros acc Hacc.
  - intros [= <-]. exact Hacc.
  - rewrite (scan_command limit it argv acc Hacc).
    destruct it as [| |flag v|text]; try discriminate.
    + destruct (String.eqb "--timeout" flag).
      * destruct v as [text|]; [|discriminate].
        destruct (py_int limit text) as [n|]; [|discriminate].
        apply IH, reading_with_timeout, Hacc.
      * apply IH, reading_with_extra, Hacc.
    + destruct (unfilled acc).
      * apply IH, reading_with_extra, Hacc.
      * apply IH, reading_with_url, Hacc.
Qed.

(** A command line that parses gives a text for [url] and an integer for
    [timeout]. *)
Lemma parse_args_namespace limit argv options :
  parse_args limit (add_arguments []) argv = Namespace options ->
  exists u t, options = options_of u t.
Proof.
  unfold parse_args. fold (positionals (add_arguments [])).
  fold (start_of (add_arguments [])).
  destruct (scan limit (add_arguments []) argv (start_of (add_arguments [])))
    as [r|acc] eqn:E.
  - intros ->. apply scan_inl in E as [[m Hm]|[[Hr|Hr] _]]; discriminate.
  - pose proof (scan_reading limit argv _ acc reading_start E) as [Hurl Ht].
    unfold finish. rewrite add_arguments_nil.
    destruct Hurl as [->|[-> [u Hu]]]; [discriminate|].
    destruct (extras acc); [|discriminate].
    cbn [map dest is_optional url_argument timeout_argument name default
           lstrip_dashes dashes_to_underscores].
    cbn. rewrite Hu.
    destruct Ht as [->|[n ->]]; intros [= <-]; do 2 eexists; reflexivity.
Qed.


Lemma parse_args_url_timeout limit u text n :
  py_int limit text = Some n ->
  parse_args limit (add_arguments []) [Arg u; Opt "--timeout" (Some text)]
  = Namespace (options_of u n)
  /\ parse_args limit (add_arguments []) [Opt "--timeout" (Some text); Arg u]
     = Namespace (options_of u n).
Proof.
  intros H. unfold parse_args.
  split; cbn; rewrite H; reflexivity.
Qed.

(** The requests of an invocation that parses: the one of [handle]. *)
Lemma run_from_argv_requests limit w argv u t st :
  parse_args limit (add_arguments []) argv = Namespace (options_of u t) ->
  requests (snd (run_from_argv limit w argv st))
  = (requests st ++ [(VStr u, VInt t)])%list.
Proof.
  intros Hparse.
  destruct (lookup_options_of u t) as [Hu Ht].
  pose proof (handle_trace w _ _ _ st Hu Ht) as Htr.
  unfold run_from_argv; rewrite Hparse.
  destruct (handle w (options_of u t) st) as [[[]|x] st'] eqn:E;
    cbn [snd] in *; unfold requests; rewrite Htr, !flat_map_app;
    unfold outcome_events;
    (destruct (http w (VStr u) (VInt t)) as [r|[msg|c msg]];
     [destruct (status_code r =? 200)| |]); cbn;
    rewrite ?app_nil_r; reflexivity.
Qed.


(** ** Failures of the request *)

(** C3, as stated, fails: for the malformed URL [http://example..com] the
    GET raises a [LocationParseError], which [handle] does not catch. *)
Lemma request_exception_caught_counterexample :
  fst (run world_malformed (options_of malformed_url 10))
  = Raised
      (OtherException "LocationParseError"
         "Failed to parse: 'example..com', label empty or too long") /\
  stdout (snd (run world_malformed (options_of malformed_url 10))) = [] /\
  check_result (snd (run world_malformed (options_of malformed_url 10)))
  = None /\
  fst (run_from_argv default_max_str_digits world_malformed
         [Arg malformed_url] initial)
  = Propagates
      (OtherException "LocationParseError"
         "Failed to parse: 'example..com', label empty or too long").
Proof. repeat split. Qed.

(** C3, amended: a [RequestException] raised by the GET is caught in
    [handle]: the call returns, the run is classified Failed with the text of
    the exception, and nothing propagates.  An exception of another class
    leaves [handle] and the run is not classified.  Whenever the run is
    classified, the process ends with status 0. *)
Theorem request_exception_caught limit w argv u t :
  parse_args limit (add_arguments []) argv = Namespace (options_of u t) ->
  (forall msg,
     http w (VStr u) (VInt t) = Raises (RequestException msg) ->
     fst (run w (options_of u t)) = Returned tt /\
     check_result (snd (run w (options_of u t))) =
       Some {| outcome := Failed; statusCode := None;
               responseTimeMs := None; errorMessage := Some msg |} /\
     fst (run_from_argv limit w argv initial) = Exits 0) /\
  (forall c msg,
     http w (VStr u) (VInt t) = Raises (OtherException c msg) ->
     fst (run w (options_of u t)) = Raised (OtherException c msg) /\
     check_result (snd (run w (options_of u t))) = None /\
     fst (run_from_argv limit w argv initial)
     = Propagates (OtherException c msg)) /\
  (forall cr,
     check_result (snd (run_from_argv limit w argv initial)) = Some cr ->
     fst (run_from_argv limit w argv initial) = Exits 0 /\
     exit_status (fst (run_from_argv limit w argv initial)) = Some 0).
Proof.
  intros Hparse.
  destruct (lookup_options_of u t) as [Hu Ht].
  unfold run_from_argv, run; rewrite Hparse. split; [|split].
  - intros msg Hget.
    rewrite (handle_request_exception w _ _ _ Hu Ht initial msg Hget).
    repeat split.
  - intros c msg Hget.
    rewrite (handle_other_exception w _ _ _ Hu Ht initial c msg Hget).
    repeat split.
  - intros cr.
    destruct (http w (VStr u) (VInt t)) as [r|[msg|c msg]] eqn:Hget.
    + rewrite (handle_response w _ _ _ Hu Ht initial r Hget).
      split; reflexivity.
    + rewrite (handle_request_exception w _ _ _ Hu Ht initial msg Hget).
      split; reflexivity.
    + rewrite (handle_other_exception w _ _ _ Hu Ht initial c msg Hget).
      unfold check_result; project. discriminate.
Qed.

Lemma request_exception_caught_witness :
  fst (run world_refused example_options) = Returned tt /\
  check_result (snd (run world_refused example_options)) =
    Some {| outcome := Failed; statusCode := None;
            responseTimeMs := None;
            errorMessage := Some "Connection error" |} /\
  fst (run_from_argv default_max_str_digits world_refused example_com initial)
  = Exits 0.
Proof.
  refine (proj1 (request_exception_caught default_max_str_digits
                   world_refused example_com "https://example.com" 10 _)
            "Connection error" _);
    reflexivity.
Defined.



(** C4, as stated, fails: when the GET raises, the clock has been read once
    and no response time exists. *)
Lemma no_response_time_on_failure_counterexample :
  let st := snd (run world_refused example_options) in
  clock_reads (trace st) = 1%nat /\
  response_time (frame st) = None /\
  ~ response_time (frame st)
    = Some (elapsed_ms (clock world_refused 0) (clock world_refused 1)).
Proof. cbn. repeat split. discriminate. Qed.

(** C4, amended: when the GET raises a [RequestException], [handle] reads
    the clock once, for the start timestamp; [response_time] stays
    unbound, and what is written and logged is the same under any other
    clock. *)
Theorem no_response_time_on_failure w options url timeout msg st :
  lookup "url" options = Some url ->
  lookup "timeout" options = Some timeout ->
  http w url timeout = Raises (RequestException msg) ->
  let st' := snd (handle w options st) in
  clock_reads (trace st') = S (clock_reads (trace st)) /\
  start_time (frame st') = Some (clock w (clock_reads (trace st))) /\
  response_time (frame st') = None /\
  forall c',
    let st'' :=
      snd (handle {| clock := c'; http := http w |} options st) in
    stdout st'' = stdout st' /\ log st'' = log st'.
Proof.
  intros Hu Ht Hget st'. subst st'.
  rewrite (handle_request_exception w options url timeout Hu Ht st msg Hget).
  cbn [snd trace frame start_time response_time].
  split; [rewrite !clock_reads_app; cbn; lia|].
  split; [reflexivity|]. split; [reflexivity|].
  intros c'.
  rewrite (handle_request_exception {| clock := c'; http := http w |}
             options url timeout Hu Ht st msg Hget).
  split; project; reflexivity.
Qed.

Lemma no_response_time_on_failure_witness :
  let st' := snd (handle world_refused example_options initial) in
  clock_reads (trace st') = 1%nat /\
  start_time (frame st') = Some (float_of_int 1) /\
  response_time (frame st') = None /\
  forall c',
    let st'' :=
      snd (handle {| clock := c'; http := http world_refused |}
             example_options initial) in
    stdout st'' = stdout st' /\ log st'' = log st'.
Proof.
  apply (no_response_time_on_failure world_refused example_options
           (VStr "https://example.com") (VInt 10) "Connection error" initial);
    reflexivity.
Defined.

(** ** Log records and other effects *)

(** C5, as stated, fails: on the Available path a second debug record
    follows the response. *)
Lemma log_records_counterexample :
  log (snd (run world_200 example_options)) =
    [request_log "https://example.com";
     available_log "https://example.com"] /\
  log (snd (run world_200 example_options)) <>
    [request_log "https://example.com"].
Proof. split; [reflexivity | discriminate]. Qed.

(** C5, amended: a call of [handle] reads the clock, emits one debug record
    with the URL and then sends the one request; after a response it reads
    the clock again and writes its line, preceded on the Available path by a
    second debug record; after a [RequestException] it emits one error
    record with the URL and the text of the failure and writes its line.
    Nothing else happens: standard error is not touched. *)
Theorem log_records w options url timeout st :
  lookup "url" options = Some url ->
  lookup "timeout" options = Some timeout ->
  let st' := snd (handle w options st) in
  trace st' =
    (trace st
     ++ [ClockRead (t_start w st);
         Log logging.DEBUG
           ("start to send a get request to the url=[" ++ py_str url ++ "]");
         Get url timeout]
     ++ outcome_events w url timeout st)%list /\
  log st' =
    (log st
     ++ request_log (py_str url) ::
        match http w url timeout with
        | Returns r =>
            if status_code r =? 200 then [available_log (py_str url)]
            else []
        | Raises (RequestException msg) => [failure_log (py_str url) msg]
        | Raises (OtherException _ _) => []
        end)%list /\
  requests st' = (requests st ++ [(url, timeout)])%list /\
  stderr st' = stderr st.
Proof.
  intros Hu Ht st'. subst st'.
  pose proof (handle_trace w options url timeout st Hu Ht) as Htr.
  split; [exact Htr|].
  unfold log, requests, stderr. rewrite Htr. rewrite !flat_map_app.
  unfold outcome_events.
  destruct (http w url timeout) as [r|[msg|c msg]];
    [destruct (status_code r =? 200)| |]; cbn;
    rewrite ?app_nil_r; repeat split.
Qed.

Lemma log_records_witness :
  let st' := snd (handle world_503 example_options initial) in
  trace st' =
    ([] ++ [ClockRead (float_of_int 0);
            Log logging.DEBUG
              "start to send a get request to the url=[https://example.com]";
            Get (VStr "https://example.com") (VInt 10)]
     ++ outcome_events world_503 (VStr "https://example.com") (VInt 10)
          initial)%list /\
  log st' = [request_log "https://example.com"] /\
  requests st' = [(VStr "https://example.com", VInt 10)] /\
  stderr st' = [].
Proof.
  apply (log_records world_503 example_options
           (VStr "https://example.com") (VInt 10) initial); reflexivity.
Defined.


(** ** The line on standard output *)

Lemma ends_with_newline_app a b :
  b <> "" -> ends_with_newline (a ++ b) = ends_with_newline b.
Proof.
  intros Hb. induction a as [|c a IH]; [reflexivity|].
  cbn [append]. destruct (a ++ b) as [|c' s] eqn:E.
  - destruct a; cbn in E; [congruence | discriminate].
  - cbn [ends_with_newline] in *. exact IH.
Qed.

Lemma append_assoc' (a b c : string) : (a ++ b) ++ c = a ++ b ++ c.
Proof. induction a as [|x a IH]; cbn; [reflexivity | rewrite IH; reflexivity]. Qed.

Lemma append_nil_r (a : string) : a ++ "" = a.
Proof. induction a as [|x a IH]; cbn; [reflexivity | rewrite IH; reflexivity]. Qed.

Lemma append_nonempty a b : b <> "" -> a ++ b <> "".
Proof. destruct a; [auto | discriminate]. Qed.

Ltac nonempty :=
  first [discriminate | apply append_nonempty; nonempty].


Lemma written_plain pal s :
  pal (role_of s) = None ->
  written pal s =
    if ends_with_newline (text_of s) then text_of s
    else text_of s ++ newline.
Proof. intros H. unfold written, paint. rewrite H. reflexivity. Qed.

Lemma written_coloured pal s codes :
  pal (role_of s) = Some codes ->
  written pal s =
    escape ++ codes ++ "m" ++ text_of s ++ escape ++ "0m" ++ newline.
Proof.
  intros H. unfold written, paint. rewrite H.
  assert (E : ends_with_newline
                (escape ++ codes ++ "m" ++ text_of s ++ escape ++ "0m")
              = false)
    by (rewrite !ends_with_newline_app by nonempty; reflexivity).
  rewrite E, !append_assoc'. reflexivity.
Qed.

Lemma ends_with_newline_available url ms :
  ends_with_newline (available_message url ms) = false.
Proof.
  unfold available_message.
  rewrite !ends_with_newline_app by nonempty. reflexivity.
Qed.

Lemma ends_with_newline_unavailable url code ms :
  ends_with_newline (unavailable_message url code ms) = false.
Proof.
  unfold unavailable_message.
  rewrite !ends_with_newline_app by nonempty. reflexivity.
Qed.

Lemma ends_with_newline_failed url msg :
  ends_with_newline (failed_message url msg) = ends_with_newline msg.
Proof.
  unfold failed_message.
  destruct msg as [|c msg];
    rewrite !ends_with_newline_app by nonempty; reflexivity.
Qed.

(** The text between the escape sequences of a palette entry, or as it is
    when the palette has no format for the role. *)
Lemma written_line pal role text :
  written pal {| role_of := role; text_of := text |} =
    match pal role with
    | None => text ++ (if ends_with_newline text then "" else newline)
    | Some codes => escape ++ codes ++ "m" ++ text ++ escape ++ "0m" ++ newline
    end.
Proof.
  destruct (pal role) as [codes|] eqn:E.
  - apply written_coloured. exact E.
  - rewrite written_plain by exact E. cbn [text_of].
    destruct (ends_with_newline text); [rewrite append_nil_r|]; reflexivity.
Qed.

(** C2, as stated, fails: [check_service https://example.com --timeout 0]
    is no usage error, the client raises a [ValueError], and nothing is
    written to standard output. *)
Lemma one_templated_line_counterexample :
  parse_args default_max_str_digits (add_arguments [])
    (example_cl_timeout "0")
  = Namespace (options_of "https://example.com" 0) /\
  stdout (snd (run_from_argv default_max_str_digits world_value_error
                 (example_cl_timeout "0") initial)) = [] /\
  fst (run_from_argv default_max_str_digits world_value_error
         (example_cl_timeout "0") initial)
  = Propagates
      (OtherException "ValueError"
         "Attempted to set connect timeout to 0, but the timeout cannot be set to a value less than or equal to 0.").
Proof. repeat split. Qed.

(** C2, amended: an invocation that is no usage error and whose GET returns
    a response or raises a [RequestException] writes exactly one line to
    standard output: the template of the outcome, given to the palette entry
    of the outcome.  Under a palette without a format for that entry the
    stream receives the template and adds a newline to it (and not even that
    when the error text already ends with one); under a palette with
    colours it receives the template between the escape sequences of the
    entry and adds a newline.  When the GET raises another exception nothing
    is written to standard output. *)
Theorem one_templated_line limit pal w argv options st :
  parse_args limit (add_arguments []) argv = Namespace options ->
  exists u t,
    options = options_of u t /\
    let st' := snd (run_from_argv limit w argv st) in
    let ms := elapsed_ms (t_start w st) (t_end w st) in
    let decorated role text ending :=
      match pal role with
      | None => text ++ ending
      | Some codes =>
          escape ++ codes ++ "m" ++ text ++ escape ++ "0m" ++ newline
      end in
    match http w (VStr u) (VInt t) with
    | Returns r =>
        if status_code r =? 200 then
          stdout st'
          = (stdout st ++ [style_SUCCESS (available_message u ms)])%list
          /\ written pal (style_SUCCESS (available_message u ms))
             = decorated style.SUCCESS
                 ("Service at " ++ u ++ " is available! Response time: "
                  ++ format_2f ms ++ " ms")
                 newline
        else
          stdout st'
          = (stdout st
             ++ [style_WARNING (unavailable_message u (status_code r) ms)])%list
          /\ written pal
               (style_WARNING (unavailable_message u (status_code r) ms))
             = decorated style.WARNING
                 ("Service at " ++ u ++ " responded with status: "
                  ++ str_int (status_code r) ++ ". Response time: "
                  ++ format_2f ms ++ " ms")
                 newline
    | Raises (RequestException msg) =>
        stdout st' = (stdout st ++ [style_ERROR (failed_message u msg)])%list
        /\ written pal (style_ERROR (failed_message u msg))
           = decorated style.ERROR
               ("Failed to check service at " ++ u ++ ": " ++ msg)
               (if ends_with_newline msg then "" else newline)
    | Raises (OtherException _ _) => stdout st' = stdout st
    end.
Proof.
  intros Hparse.
  destruct (parse_args_namespace limit argv options Hparse) as (u & t & ->).
  exists u, t. split; [reflexivity|].
  destruct (lookup_options_of u t) as [Hu Ht].
  unfold run_from_argv; rewrite Hparse.
  destruct (http w (VStr u) (VInt t)) as [r|[msg|c msg]] eqn:Hget.
  - rewrite (handle_response w _ _ _ Hu Ht st r Hget).
    destruct (status_code r =? 200); (split; [project; reflexivity|]).
    + unfold style_SUCCESS. rewrite written_line.
      fold (available_message u (elapsed_ms (t_start w st) (t_end w st))).
      rewrite ends_with_newline_available. reflexivity.
    + unfold style_WARNING. rewrite written_line.
      fold (unavailable_message u (status_code r)
              (elapsed_ms (t_start w st) (t_end w st))).
      rewrite ends_with_newline_unavailable. reflexivity.
  - rewrite (handle_request_exception w _ _ _ Hu Ht st msg Hget).
    split; [project; reflexivity|].
    unfold style_ERROR. rewrite written_line.
    fold (failed_message u msg).
    rewrite ends_with_newline_failed. reflexivity.
  - rewrite (handle_other_exception w _ _ _ Hu Ht st c msg Hget).
    project. reflexivity.
Qed.

Lemma one_templated_line_witness :
  stdout (snd (run_from_argv default_max_str_digits world_200 example_com
                 initial))
  = [style_SUCCESS
       (available_message "https://example.com"
          (elapsed_ms (float_of_int 0) (float_of_int 0)))]
  /\ written sample_palette
       (style_SUCCESS
          (available_message "https://example.com"
             (elapsed_ms (float_of_int 0) (float_of_int 0))))
     = escape ++ "32;1m"
       ++ "Service at https://example.com is available! Response time: 0.00 ms"
       ++ escape ++ "0m" ++ newline.
Proof.
  destruct (one_templated_line default_max_str_digits sample_palette
              world_200 example_com example_options initial eq_refl)
    as (u & t & E & H).
  injection E as Eu Et. subst u t.
  exact H.
Defined.



(** ** The result of a run *)

(** C9, as stated, fails: a run whose GET raises an exception that is not a
    [RequestException] ends in none of the three outcomes. *)
Lemma check_result_invariant_counterexample :
  check_result (snd (run world_value_error (options_of "https://example.com" 0)))
    = None /\
  exists c msg,
    fst (run world_value_error (options_of "https://example.com" 0))
      = Raised (OtherException c msg).
Proof. split; [reflexivity | do 2 eexists; reflexivity]. Qed.

(** C9, amended: in every result of a run the status code is present
    exactly when the outcome is Available or UnavailableStatus and the error
    message exactly when it is Failed.  A run whose GET returns a response or
    raises a [RequestException] ends in exactly one of the three outcomes; a
    run whose GET raises another exception ends in none, the exception
    leaves [handle]. *)
Theorem check_result_invariant w options url timeout :
  lookup "url" options = Some url ->
  lookup "timeout" options = Some timeout ->
  (forall cr,
     check_result (snd (run w options)) = Some cr ->
     (present (statusCode cr) = true <->
      outcome cr = Available \/ outcome cr = UnavailableStatus) /\
     (present (errorMessage cr) = true <-> outcome cr = Failed)) /\
  match http w url timeout with
  | Returns r =>
      exists cr,
        check_result (snd (run w options)) = Some cr /\
        outcome cr =
          (if status_code r =? 200 then Available else UnavailableStatus)
  | Raises (RequestException msg) =>
      exists cr,
        check_result (snd (run w options)) = Some cr /\ outcome cr = Failed
  | Raises (OtherException c msg) =>
      check_result (snd (run w options)) = None /\
      fst (run w options) = Raised (OtherException c msg)
  end.
Proof.
  intros Hu Ht. unfold run.
  destruct (http w url timeout) as [r|[msg|c msg]] eqn:Hget.
  - rewrite (handle_response w options url timeout Hu Ht initial r Hget).
    unfold check_result; project.
    destruct (status_code r =? 200); cbn; split;
      try (eexists; split; reflexivity);
      intros cr [= <-]; cbn; split; split;
        (discriminate || auto || (intros [|]; (discriminate || reflexivity))).
  - rewrite (handle_request_exception w options url timeout Hu Ht initial msg
               Hget).
    unfold check_result; project. split;
      try (eexists; split; reflexivity);
      intros cr [= <-]; cbn; split; split;
        (discriminate || auto || (intros [|]; discriminate)).
  - rewrite (handle_other_exception w options url timeout Hu Ht initial c msg
               Hget).
    unfold check_result; project. split; [discriminate | split; reflexivity].
Qed.

Lemma check_result_invariant_witness :
  check_result (snd (run world_refused example_options))
  = Some {| outcome := Failed; statusCode := None; responseTimeMs := None;
            errorMessage := Some "Connection error" |}
  /\ (present (errorMessage
        {| outcome := Failed; statusCode := None; responseTimeMs := None;
           errorMessage := Some "Connection error" |}) = true <->
      Failed = Failed).
Proof.
  split; [reflexivity|].
  exact (proj2 (proj1 (check_result_invariant world_refused example_options
                         (VStr "https://example.com") (VInt 10)
                         eq_refl eq_refl)
                  _ eq_refl)).
Defined.


(** ** Arguments *)




(** C10, as stated, fails: under the interpreter's default limit on integer
    conversion the integer [- 10^4300] is not accepted as a timeout, here
    with the empty URL. *)
Lemma no_validation_counterexample :
  convert default_max_str_digits type_int (str_int (- 10 ^ 4300)) = None /\
  exists message,
    run_from_argv default_max_str_digits world_200
      [Arg ""; Opt "--timeout" (Some (str_int (- 10 ^ 4300)))] initial
    = (UsageError message, initial).
Proof. split; [vm_compute; reflexivity | eexists; vm_compute; reflexivity]. Qed.

(** C10, amended: every string is accepted as [url], the empty one too, and
    every integer whose decimal text is within the interpreter's limit on
    integer conversion as [timeout], zero and negative ones too; the GET is
    issued with exactly these two values. *)
Theorem no_validation limit (w : World) (u : string) (t : Z) (st : State) :
  over_limit limit (str_int (Z.abs t)) = false ->
  let argv := [Arg u; Opt "--timeout" (Some (str_int t))] in
  convert limit type_str u = Some (VStr u) /\
  convert limit type_int (str_int t) = Some (VInt t) /\
  parse_args limit (add_arguments []) argv = Namespace (options_of u t) /\
  requests (snd (run_from_argv limit w argv st))
  = (requests st ++ [(VStr u, VInt t)])%list.
Proof.
  intros Hlim argv.
  pose proof (py_int_str_int limit t Hlim) as Hint.
  destruct (parse_args_url_timeout limit u _ t Hint) as [Hparse _].
  split; [reflexivity|]. split.
  - unfold convert. rewrite Hint. reflexivity.
  - split; [exact Hparse|].
    exact (run_from_argv_requests limit w argv u t st Hparse).
Qed.

Lemma no_validation_witness :
  requests
    (snd (run_from_argv default_max_str_digits world_200
            [Arg ""; Opt "--timeout" (Some "-5")] initial))
  = [(VStr "", VInt (-5))] /\
  requests
    (snd (run_from_argv default_max_str_digits world_200
            [Arg ""; Opt "--timeout" (Some "0")] initial))
  = [(VStr "", VInt 0)].
Proof.
  split.
  - exact (proj2 (proj2 (proj2 (no_validation default_max_str_digits
                                  world_200 "" (-5) initial eq_refl)))).
  - exact (proj2 (proj2 (proj2 (no_validation default_max_str_digits
                                  world_200 "" 0 initial eq_refl)))).
Defined.

(** ** Usage errors *)







(** ** The response time *)

(** C6, as stated, fails: an invocation whose GET raises has no response
    time at all; and two finite readings of the clock whose difference
    overflows give a response time that is printed as [inf], without any
    decimal place. *)
Lemma response_time_two_decimals_counterexample :
  response_time (frame (snd (run world_refused example_options))) = None /\
  is_finite (clock world_overflow 0) = true /\
  is_finite (clock world_overflow 1) = true /\
  stdout (snd (run world_overflow example_options))
  = [style_SUCCESS
       "Service at https://example.com is available! Response time: inf ms"]
  /\ has_two_decimals
       (format_2f (elapsed_ms (clock world_overflow 0) (clock world_overflow 1)))
     = false.
Proof. repeat split. Qed.

(** What is printed for a number that is not finite. *)
Lemma format_2f_not_finite x :
  is_finite x = false ->
  format_2f x = "inf" \/ format_2f x = "-inf" \/ format_2f x = "nan".
Proof.
  destruct x as [s|s| |s m ex]; cbn [is_finite format_2f]; try discriminate;
    intros _; [destruct s|]; auto.
Qed.

(** C6, amended: an invocation has a response time exactly when its GET
    returns a response; it is then [(end - start) * 1000] on the two
    readings of the clock, in binary64 arithmetic, and the line written ends
    with it in the format [.2f].  That format shows exactly two decimal
    places of a finite number and prints [inf], [-inf] or [nan] otherwise; an
    elapsed time of 0.5 s is reported as [500.00] and one of 0 s as
    [0.00]. *)
Theorem response_time_two_decimals w options url timeout st :
  lookup "url" options = Some url ->
  lookup "timeout" options = Some timeout ->
  let st' := snd (handle w options st) in
  let start := clock w (clock_reads (trace st)) in
  let stop := clock w (S (clock_reads (trace st))) in
  let ms := float_mul (float_sub stop start) (float_of_int 1000) in
  match http w url timeout with
  | Returns _ =>
      start_time (frame st') = Some start /\
      response_time (frame st') = Some ms /\
      exists role before,
        stdout st' =
          (stdout st
           ++ [{| role_of := role;
                  text_of :=
                    before ++ "Response time: " ++ format_2f ms ++ " ms" |}])%list
  | Raises _ => response_time (frame st') = None
  end
  /\ (is_finite ms = true -> has_two_decimals (format_2f ms) = true)
  /\ (is_finite ms = false ->
      format_2f ms = "inf" \/ format_2f ms = "-inf" \/ format_2f ms = "nan")
  /\ (float_sub stop start = float_of 1 (-1) -> format_2f ms = "500.00")
  /\ (float_sub stop start = float_of_int 0 -> format_2f ms = "0.00")
  /\ (is_finite start = true -> stop = start -> format_2f ms = "0.00").
Proof.
  intros Hu Ht st' start stop ms. subst st'. split.
  - destruct (http w url timeout) as [r|[msg|c msg]] eqn:Hget.
    + rewrite (handle_response w options url timeout Hu Ht st r Hget).
      cbn [snd frame start_time response_time].
      split; [reflexivity|]. split; [reflexivity|].
      project. fold start stop.
      destruct (status_code r =? 200).
      * exists style.SUCCESS,
          ("Service at " ++ py_str url ++ " is available! ").
        unfold style_SUCCESS, available_message.
        rewrite !append_assoc'. reflexivity.
      * exists style.WARNING,
          ("Service at " ++ py_str url ++ " responded with status: "
           ++ str_int (status_code r) ++ ". ").
        unfold style_WARNING, unavailable_message.
        rewrite !append_assoc'. reflexivity.
    + rewrite (handle_request_exception w options url timeout Hu Ht st msg
                 Hget). reflexivity.
    + rewrite (handle_other_exception w options url timeout Hu Ht st c msg
                 Hget). reflexivity.
  - split; [apply format_2f_two_decimals|].
    split; [apply format_2f_not_finite|].
    subst ms. repeat split.
    + intros ->. reflexivity.
    + intros ->. reflexivity.
    + intros Hfin ->. rewrite (float_sub_diag start Hfin). reflexivity.
Qed.

Lemma response_time_two_decimals_witness :
  let st' :=
    snd (handle (answers clock_1_then_1_5 (Returns {| status_code := 200 |}))
           example_options initial) in
  response_time (frame st') = Some (float_of_int 500) /\
  stdout st' =
    [style_SUCCESS
       "Service at https://example.com is available! Response time: 500.00 ms"]
  /\ has_two_decimals (format_2f (float_of_int 500)) = true.
Proof.
  pose proof (response_time_two_decimals
                (answers clock_1_then_1_5 (Returns {| status_code := 200 |}))
                example_options (VStr "https://example.com") (VInt 10)
                initial eq_refl eq_refl)
    as (Hrun & Hfmt & _).
  destruct Hrun as (_ & Hms & _).
  split; [exact Hms|]. split; [reflexivity|].
  exact (Hfmt eq_refl).
Defined.



(** * Further properties of the command *)

(** ** Options that are missing or that [handle] does not read *)

Lemma handle_no_url w options st :
  lookup "url" options = None ->
  handle w options st =
    (Raised (OtherException "KeyError" "'url'"),
     {| trace := trace st; frame := no_locals |}).
Proof.
  intros Hu. unfold handle, getitem; rewrite Hu. reflexivity.
Qed.

Lemma handle_no_timeout w options url st :
  lookup "url" options = Some url ->
  lookup "timeout" options = None ->
  handle w options st =
    (Raised (OtherException "KeyError" "'timeout'"),
     {| trace := trace st; frame := no_locals |}).
Proof.
  intros Hu Ht. unfold handle, getitem; rewrite Hu, Ht. reflexivity.
Qed.

(** X1: [handle] reads [options['url']] and [options['timeout']] before the
    [try] statement: when one of them is missing the [KeyError] leaves
    [handle] at once, naming the first missing key, and nothing has happened
    yet: no clock reading, no log record, no request, no output. *)
Theorem handle_missing_option w options st :
  lookup "url" options = None \/ lookup "timeout" options = None ->
  exists key,
    lookup key options = None /\
    (key = "url" \/ key = "timeout" /\ lookup "url" options <> None) /\
    handle w options st =
      (Raised (OtherException "KeyError" ("'" ++ key ++ "'")),
       {| trace := trace st; frame := no_locals |}).
Proof.
  intros Hmiss.
  destruct (lookup "url" options) as [url|] eqn:Hu.
  - destruct Hmiss as [Hmiss|Ht]; [discriminate|].
    exists "timeout". split; [exact Ht|]. split.
    + right. split; [reflexivity | discriminate].
    + exact (handle_no_timeout w options url st Hu Ht).
  - exists "url". split; [exact Hu|]. split; [left; reflexivity|].
    exact (handle_no_url w options st Hu).
Qed.

Lemma handle_missing_option_witness :
  handle world_200 [("timeout", VInt 10)] initial =
    (Raised (OtherException "KeyError" "'url'"), initial).
Proof.
  destruct (handle_missing_option world_200 [("timeout", VInt 10)] initial
              (or_introl eq_refl)) as (key & Hkey & [->|[-> Hu]] & Hrun).
  - exact Hrun.
  - exfalso. apply Hu. reflexivity.
Defined.

(** X2: of the option dictionary [handle] reads the keys [url] and
    [timeout] and nothing else: two dictionaries that agree on these two keys
    give the same run, whatever other options they hold. *)
Theorem handle_reads_url_and_timeout w options options' st :
  lookup "url" options = lookup "url" options' ->
  lookup "timeout" options = lookup "timeout" options' ->
  handle w options st = handle w options' st.
Proof.
  intros Hu Ht. unfold handle, getitem. rewrite Hu, Ht. reflexivity.
Qed.

Lemma handle_reads_url_and_timeout_witness :
  handle world_503
    (("verbosity", VInt 1) :: example_options ++ [("no_color", VNone)])%list
    initial
  = handle world_503 example_options initial.
Proof.
  apply handle_reads_url_and_timeout; reflexivity.
Defined.


(** ** The URL in what is logged and written *)

Lemma prefix_append n s : prefix n (n ++ s) = true.
Proof.
  induction n as [|c n IH]; [destruct s; reflexivity|].
  cbn [append prefix]. destruct (ascii_dec c c); [exact IH | congruence].
Qed.

Lemma mentions_append n a b : mentions n (a ++ n ++ b) = true.
Proof.
  induction a as [|c a IH].
  - cbn [append]. destruct (n ++ b) eqn:E; cbn [mentions];
      rewrite <- E, prefix_append; reflexivity.
  - cbn [append mentions]. rewrite IH. apply orb_true_r.
Qed.

(** X7: every log record and every line that a call of [handle] produces
    contains the text of the URL as it was given, unchanged. *)
Theorem url_in_every_message w options url timeout st :
  lookup "url" options = Some url ->
  lookup "timeout" options = Some timeout ->
  exists events,
    trace (snd (handle w options st)) = (trace st ++ events)%list /\
    Forall (fun ev =>
              match event_text ev with
              | Some text => mentions (py_str url) text = true
              | None => True
              end) events.
Proof.
  intros Hu Ht.
  exists (request_events w url timeout st ++ outcome_events w url timeout st)%list.
  split; [exact (handle_trace w options url timeout st Hu Ht)|].
  apply Forall_app. split.
  - unfold request_events, request_log.
    repeat constructor. cbn [event_text snd]. apply mentions_append.
  - unfold outcome_events.
    destruct (http w url timeout) as [r|[msg|c msg]];
      [destruct (status_code r =? 200)| |];
      repeat constructor; cbn [event_text snd text_of];
      unfold available_log, failure_log, style_SUCCESS, style_WARNING,
        style_ERROR, available_message, unavailable_message, failed_message;
      cbn [snd text_of]; apply mentions_append.
Qed.

Lemma url_in_every_message_witness :
  exists events,
    trace (snd (handle world_refused example_options initial)) = events /\
    Forall (fun ev =>
              match event_text ev with
              | Some text => mentions "https://example.com" text = true
              | None => True
              end) events.
Proof.
  exact (url_in_every_message world_refused example_options
           (VStr "https://example.com") (VInt 10) initial eq_refl eq_refl).
Defined.


(** ** A timeout that is not a number *)






(** ** What the printed response time denotes *)

Lemma of_uint_acc_value d acc :
  Z.pos (Pos.of_uint_acc d acc) = uint_value (Z.pos acc) d.
Proof.
  revert acc. induction d; intros acc; cbn [Pos.of_uint_acc uint_value];
    [reflexivity | rewrite IHd; f_equal; lia ..].
Qed.

Lemma of_uint_value d : Z.of_N (Pos.of_uint d) = uint_value 0 d.
Proof.
  induction d; cbn [Pos.of_uint uint_value];
    [reflexivity | exact IHd
     | cbn [Z.of_N]; rewrite of_uint_acc_value; reflexivity ..].
Qed.

Lemma read_hundredths_digits d acc rest :
  read_hundredths acc (NilEmpty.string_of_uint d ++ rest)
  = read_hundredths (uint_value acc d) rest.
Proof.
  revert acc. induction d; intros acc;
    cbn [NilEmpty.string_of_uint append uint_value];
    [reflexivity | ..];
    cbn [read_hundredths];
    cbn -[Z.mul Z.add Z.sub read_hundredths uint_value];
    rewrite IHd; unfold digit_value; cbn -[Z.mul Z.add Z.sub];
    match goal with
    | |- read_hundredths (uint_value ?a _) _ = read_hundredths (uint_value ?b _) _ =>
        replace a with b by lia
    end; reflexivity.
Qed.

Lemma digit_value_digit n : digit_value (digit n) = n mod 10.
Proof.
  unfold digit, digit_value.
  pose proof (Z.mod_pos_bound n 10 ltac:(lia)) as Hb.
  assert (Hc : n mod 10 = 0 \/ n mod 10 = 1 \/ n mod 10 = 2 \/ n mod 10 = 3
               \/ n mod 10 = 4 \/ n mod 10 = 5 \/ n mod 10 = 6
               \/ n mod 10 = 7 \/ n mod 10 = 8 \/ n mod 10 = 9) by lia.
  repeat destruct Hc as [Hc|Hc]; rewrite Hc; reflexivity.
Qed.

Lemma read_hundredths_fixed2 h :
  0 <= h -> read_hundredths 0 (fixed2 h) = Some h.
Proof.
  intros Hh. unfold fixed2, digits, NilZero.string_of_uint.
  assert (Hq : 0 <= h / 100) by (apply Z.div_pos; lia).
  pose proof (DecimalN.Unsigned.of_to (Z.to_N (h / 100))) as Hof.
  unfold N.of_uint in Hof.
  assert (Hval : uint_value 0 (N.to_uint (Z.to_N (h / 100))) = h / 100).
  { rewrite <- of_uint_value, Hof. lia. }
  assert (Hread :
    read_hundredths 0
      (NilEmpty.string_of_uint (N.to_uint (Z.to_N (h / 100)))
       ++ "." ++ String (digit (h / 10)) (String (digit h) ""))
    = Some h).
  { rewrite read_hundredths_digits, Hval.
    cbn [append read_hundredths]. cbn [is_digit]. cbn -[digit Z.mul Z.add Z.div].
    rewrite !digit_is_digit. cbn [andb]. rewrite !digit_value_digit.
    f_equal.
    pose proof (Z.div_mod h 10 ltac:(lia)).
    pose proof (Z.div_mod (h / 10) 10 ltac:(lia)).
    assert (h / 10 / 10 = h / 100) by (rewrite Z.div_div by lia; reflexivity).
    lia. }
  destruct (N.to_uint (Z.to_N (h / 100))); exact Hread.
Qed.

Lemma hundredths_nonneg m ex : 0 <= hundredths m ex.
Proof.
  unfold hundredths.
  destruct (0 <=? ex) eqn:E.
  - apply Z.leb_le in E. apply Z.mul_nonneg_nonneg; [lia|].
    apply Z.pow_nonneg; lia.
  - apply Z.leb_gt in E.
    assert (Hd : 0 < 2 ^ (- ex)) by (apply Z.pow_pos_nonneg; lia).
    assert (Hq : 0 <= Z.pos m * 100 / 2 ^ (- ex)) by (apply Z.div_pos; lia).
    destruct (2 * ((Z.pos m * 100) mod 2 ^ (- ex)) ?= 2 ^ (- ex));
      [destruct (Z.even _)| |]; lia.
Qed.

Lemma strip_sign_fixed2 s h : strip_sign (sign_text s ++ fixed2 h) = fixed2 h.
Proof.
  destruct s; [reflexivity|]. cbn [sign_text append].
  unfold fixed2.
  destruct (digits_shape (h / 100)) as (c & ds & E & Hc & _).
  rewrite E. cbn [append strip_sign].
  rewrite (is_digit_not_minus c Hc). reflexivity.
Qed.

(** X8: the text printed for a finite response time, read as a decimal
    number, is the number of hundredths that the format computed: the
    printing loses nothing beyond the rounding to two decimals. *)
Theorem printed_time_reads_back x :
  is_finite x = true ->
  read_hundredths 0 (strip_sign (format_2f x)) =
    Some (match x with
          | S754_finite _ m ex => hundredths m ex
          | _ => 0
          end).
Proof.
  destruct x as [s|s| |s m ex]; cbn [is_finite format_2f];
    try discriminate; intros _; rewrite strip_sign_fixed2.
  - apply read_hundredths_fixed2. lia.
  - apply read_hundredths_fixed2. apply hundredths_nonneg.
Qed.

Lemma printed_time_reads_back_witness :
  read_hundredths 0 (strip_sign (format_2f (float_of (-3) (-3))))
  = Some 38.
Proof.
  exact (printed_time_reads_back (float_of (-3) (-3)) eq_refl).
Defined.




(** ** The precision of the printed response time *)


